(** * skin-database API front door: a shallow embedding of [api/app.ts]

    The module under verification assembles an Express application: it
    attaches a per-request [UserContext], a [notify] capability, two logging
    functions, a CORS origin gate, upload limits, a sitemap provider, the
    router and a terminal error handler.

    The embedding follows the source top to bottom.  JavaScript strings are
    [string]s of 8-bit characters (Node decodes header values as latin1, so
    every origin is such a string); objects with identity live in a store and
    are named by locations; a function that may throw runs in a small state
    and exception monad over that store. *)

From Stdlib Require Import ZArith Ascii String Bool Lia.
From stdpp Require Import base option list strings gmap.

Set Warnings "-register-all".
#[local] Arguments String.append : simpl nomatch.

(** ** JavaScript values the module touches *)

(** [new Error(message)]: only the message is ever read back. *)
Record JsError := Error { message : string }.

(** The double quote character, which the denial message puts around the
    rejected origin. *)
Definition dquote : string := String (ascii_of_nat 34) EmptyString.

(** [s] occurs in [t] as a contiguous run of characters. *)
Definition occurs_in (s t : string) : Prop :=
  ∃ before after, t = before +:+ s +:+ after.

(** [!x] for [x : string | undefined]: both [undefined] and the empty string
    are falsy. *)
Definition js_not (x : option string) : bool :=
  match x with
  | None => true
  | Some EmptyString => true
  | Some (String _ _) => false
  end.

(** [String(x)], the coercion a template literal and [RegExp.test] apply. *)
Definition js_to_string (x : option string) : string :=
  match x with
  | None => "undefined"
  | Some s => s
  end.

(** ** Regular expressions

    The three literals of [allowList] are built from ordinary characters,
    identity escapes ([\/], [\.]) and the wildcard [.]; they carry no flags, so
    [test] searches for a match starting at any offset and keeps no
    [lastIndex]. *)
Module RegExp.

Inductive atom :=
  | Lit (c : ascii)
  | AnyChar.

Definition t := list atom.

Definition backslash : ascii := ascii_of_nat 92.
Definition dot : ascii := ascii_of_nat 46.

(** Characters that would start syntax this fragment does not cover. *)
Definition syntax_chars : list ascii :=
  map ascii_of_nat [36; 40; 41; 42; 43; 63; 91; 93; 94; 123; 124; 125].

(** Identity escapes: a backslash before a punctuation character stands for
    that character. *)
Definition identity_escape (c : ascii) : bool :=
  bool_decide (c = dot) || bool_decide (c = ascii_of_nat 47)
  || bool_decide (c ∈ syntax_chars) || bool_decide (c = backslash).

(** The pattern between the slashes of a literal, read left to right.
    [None] when the text leaves the fragment above. *)
Fixpoint parse (src : string) : option t :=
  match src with
  | EmptyString => Some []
  | String c rest =>
      if bool_decide (c = backslash) then
        match rest with
        | String e rest' =>
            if identity_escape e then cons (Lit e) <$> parse rest' else None
        | EmptyString => None
        end
      else if bool_decide (c = dot) then cons AnyChar <$> parse rest
      else if bool_decide (c ∈ syntax_chars) then None
      else cons (Lit c) <$> parse rest
  end.

(** A regular expression literal [/src/]. *)
Definition literal (src : string) : t := default [] (parse src).

(** Line terminators among 8-bit characters: LF and CR.  The wildcard does
    not match them. *)
Definition line_terminator (c : ascii) : bool :=
  bool_decide (c = ascii_of_nat 10) || bool_decide (c = ascii_of_nat 13).

Definition atom_matches (a : atom) (c : ascii) : bool :=
  match a with
  | Lit x => bool_decide (c = x)
  | AnyChar => negb (line_terminator c)
  end.

(** The pattern matches a prefix of [s]. *)
Fixpoint match_here (p : t) (s : string) : bool :=
  match p, s with
  | [], _ => true
  | _ :: _, EmptyString => false
  | a :: p', String c s' => atom_matches a c && match_here p' s'
  end.

(** The pattern matches all of [s], first character to last. *)
Fixpoint match_full (p : t) (s : string) : bool :=
  match p, s with
  | [], EmptyString => true
  | [], String _ _ => false
  | _ :: _, EmptyString => false
  | a :: p', String c s' => atom_matches a c && match_full p' s'
  end.

(** [regex.test(s)]: try every start offset, leftmost first. *)
Fixpoint test (p : t) (s : string) : bool :=
  match_here p s ||
  match s with
  | EmptyString => false
  | String _ s' => test p s'
  end.

End RegExp.

(** ** OriginGate ([allowList], [corsOptions.origin]) *)

Definition allowList : list RegExp.t :=
  [ RegExp.literal "https:\/\/skins\.webamp\.org";
    RegExp.literal "http:\/\/localhost:3000";
    RegExp.literal "netlify.app" ].

(** What the origin function hands to its callback: [callback(null, true)] or
    [callback(new Error(...))]. *)
Inductive CorsDecision :=
  | Allow
  | Deny (err : JsError).

(** The origin function over an arbitrary list of rules. *)
Definition origin_check (rules : list RegExp.t) (origin : option string) : CorsDecision :=
  if js_not origin
     || existsb (λ regex, RegExp.test regex (js_to_string origin)) rules
  then Allow
  else Deny (Error ("Request from origin " +:+ dquote +:+ js_to_string origin
                      +:+ dquote +:+ " not allowed by CORS.")).

(** [corsOptions.origin], with the module's own [allowList]. *)
Definition corsOptions_origin (origin : option string) : CorsDecision :=
  origin_check allowList origin.


(** ** The store

    Objects whose identity matters (the per-request [UserContext], the
    [params] and [query] objects Express hangs on a request) are cells of a
    heap; [console.log] and [console.error] append to the process-level
    console. *)

Definition loc := nat.

Inductive JsValue :=
  | VUndefined
  | VNumber (n : Z)
  | VString (s : string)
  | VRef (l : loc)
  | VObject (fields : list (string * JsValue)).

(** [undefined] or a string, as a value. *)
Definition of_optional_string (x : option string) : JsValue :=
  match x with
  | None => VUndefined
  | Some s => VString s
  end.

(** [undefined] or an object reference, as a value. *)
Definition of_optional_ref (x : option loc) : JsValue :=
  match x with
  | None => VUndefined
  | Some l => VRef l
  end.

Inductive HeapObject :=
  | UserContextInstance
  | Dict (fields : gmap string string).

Inductive Level := LevelInfo | LevelError.

Record ConsoleLine := { level : Level; args : list JsValue }.

Record World := {
  heap : gmap loc HeapObject;
  console : list ConsoleLine
}.

Definition set_heap (h : gmap loc HeapObject) (w : World) : World :=
  {| heap := h; console := console w |}.

Definition set_console (c : list ConsoleLine) (w : World) : World :=
  {| heap := heap w; console := c |}.

(** ** Computations that read and write the store and may throw *)

Inductive Result (A : Type) :=
  | Ok (a : A) (w : World)
  | Throw (e : JsError) (w : World).
Arguments Ok {A} a w.
Arguments Throw {A} e w.

Definition M (A : Type) : Type := World → Result A.

Definition ret {A} (a : A) : M A := λ w, Ok a w.

Definition throw {A} (e : JsError) : M A := λ w, Throw e w.

Definition bind {A B} (m : M A) (k : A → M B) : M B :=
  λ w, match m w with
       | Ok a w' => k a w'
       | Throw e w' => Throw e w'
       end.

Notation "'let!' x ':=' m 'in' k" := (bind m (λ x, k))
  (at level 10, x name, m at level 100, k at level 200).

(** [new C()]: a cell no live object occupies. *)
Definition fresh_loc (w : World) : loc := fresh (dom (heap w)).

Definition new_object (o : HeapObject) : M loc :=
  λ w, let l := fresh_loc w in Ok l (set_heap (<[l := o]> (heap w)) w).

(** [new UserContext()]; the class itself belongs to the data layer. *)
Definition new_UserContext : M loc := new_object UserContextInstance.

Definition console_emit (lv : Level) (arguments : list JsValue) : M unit :=
  λ w, Ok () (set_console (console w ++ [{| level := lv; args := arguments |}]) w).

(** [console.log(...)] and [console.error(...)]. *)
Definition console_log := console_emit LevelInfo.
Definition console_error := console_emit LevelError.

(** ** Events and the request object *)

Inductive ApiAction :=
  | REVIEW_REQUESTED (md5 : string)
  | SKIN_UPLOADED (md5 : string)
  | ERROR_PROCESSING_UPLOAD (id : string) (message : string).

(** [(event, ctx) => void].  The second argument is whatever [req.ctx] holds
    when [notify] is called. *)
Definition EventHandler := ApiAction → option loc → M unit.

(** The closure stored in [req.notify]: it keeps [eventHandler] of the
    enclosing [createApp] call, and reads [req.ctx] when it is called. *)
Record NotifyClosure := { captured_eventHandler : option EventHandler }.

(** The object literal [{ url, params, query }] of the logger stage: the URL
    string and the two object references as they were when it was built. *)
Record LogContext := { context_url : string; context_params : loc; context_query : loc }.

Definition LogContext_value (c : LogContext) : JsValue :=
  VObject [("url", VString (context_url c));
           ("params", VRef (context_params c));
           ("query", VRef (context_query c))].

(** The closures stored in [req.log] and [req.logError]; both keep the one
    [context] constant of the logger stage. *)
Record LogClosure := { captured_context : LogContext }.

Record Request := {
  method : string;
  url : string;
  headers_origin : option string;
  params : loc;
  query : loc;
  ctx : option loc;
  notify : option NotifyClosure;
  log : option LogClosure;
  logError : option LogClosure
}.

Definition set_ctx (c : loc) (req : Request) : Request :=
  {| method := method req; url := url req; headers_origin := headers_origin req;
     params := params req; query := query req; ctx := Some c;
     notify := notify req; log := log req; logError := logError req |}.

Definition set_notify (f : NotifyClosure) (req : Request) : Request :=
  {| method := method req; url := url req; headers_origin := headers_origin req;
     params := params req; query := query req; ctx := ctx req;
     notify := Some f; log := log req; logError := logError req |}.

Definition set_log (f : LogClosure) (req : Request) : Request :=
  {| method := method req; url := url req; headers_origin := headers_origin req;
     params := params req; query := query req; ctx := ctx req;
     notify := notify req; log := Some f; logError := logError req |}.

Definition set_logError (f : LogClosure) (req : Request) : Request :=
  {| method := method req; url := url req; headers_origin := headers_origin req;
     params := params req; query := query req; ctx := ctx req;
     notify := notify req; log := log req; logError := Some f |}.

(** Express gives each matched route a params object of its own. *)
Definition set_params (p : loc) (req : Request) : Request :=
  {| method := method req; url := url req; headers_origin := headers_origin req;
     params := p; query := query req; ctx := ctx req;
     notify := notify req; log := log req; logError := logError req |}.

Record Response := {
  statusCode : Z;
  sentry : option string;
  body : option JsValue
}.

Definition set_statusCode (n : Z) (res : Response) : Response :=
  {| statusCode := n; sentry := sentry res; body := body res |}.

(** [res.json(v)]: [v] becomes the body; the status code is left alone. *)
Definition res_json (v : JsValue) (res : Response) : Response :=
  {| statusCode := statusCode res; sentry := sentry res; body := Some v |}.

Definition not_a_function (name : string) : JsError :=
  Error (name +:+ " is not a function").

(** [req.notify(action)]. *)
Definition req_notify (req : Request) (action : ApiAction) : M unit :=
  match notify req with
  | Some closure =>
      match captured_eventHandler closure with
      | Some eventHandler => eventHandler action (ctx req)
      | None => ret ()
      end
  | None => throw (not_a_function "req.notify")
  end.

(** [req.log(message)]. *)
Definition req_log (req : Request) (message : string) : M unit :=
  match log req with
  | Some closure =>
      console_log [VString message; LogContext_value (captured_context closure)]
  | None => throw (not_a_function "req.log")
  end.

(** [req.logError(message)]. *)
Definition req_logError (req : Request) (message : string) : M unit :=
  match logError req with
  | Some closure =>
      console_error [VString message; LogContext_value (captured_context closure)]
  | None => throw (not_a_function "req.logError")
  end.

(** ** Express: layers, the application object, dispatch *)

(** What a middleware does with the request: [next()], [next(err)], or it
    sends the response and calls neither. *)
Inductive Outcome :=
  | Next (req : Request) (res : Response)
  | NextErr (err : JsError) (req : Request) (res : Response)
  | End (req : Request) (res : Response).

Definition Middleware := Request → Response → M Outcome.
Definition ErrorMiddleware := JsError → Request → Response → M Outcome.

(** Express tells the two apart by arity: four parameters make an error
    handler. *)
Inductive Handler :=
  | Handle (f : Middleware)
  | HandleError (f : ErrorMiddleware).

(** One name per call that installs a layer in [createApp], in source
    order. *)
Inductive StageId :=
  | SentryRequestHandler
  | AddUserContext
  | AttachEventHandler
  | AttachLogger
  | Cors
  | CorsPreflight
  | BodyParserJson
  | FileUpload
  | SitemapXml
  | Routes
  | SentryErrorHandler
  | OnError.

#[global] Instance StageId_eq_dec : EqDecision StageId.
Proof. solve_decision. Defined.

(** A layer of the application's stack.  [only_method] is [Some m] for a
    layer installed with a verb ([app.options]); the paths used by the module,
    ["/"] and ["*"], match every request path. *)
Record Layer := {
  stage : StageId;
  only_method : option string;
  handler : Handler
}.

Record App := {
  stack : list Layer;
  settings : list (string * JsValue)
}.

(** [express()]. *)
Definition express : App := {| stack := []; settings := [] |}.

(** [app.use(fn)] and [app.use("/", fn)]. *)
Definition app_use (id : StageId) (h : Handler) (app : App) : App :=
  {| stack := stack app ++ [{| stage := id; only_method := None; handler := h |}];
     settings := settings app |}.

(** [app.options("*", fn)]. *)
Definition app_options (id : StageId) (h : Handler) (app : App) : App :=
  {| stack := stack app ++ [{| stage := id; only_method := Some "OPTIONS"; handler := h |}];
     settings := settings app |}.

(** [app.set(name, value)]. *)
Definition app_set (name : string) (value : JsValue) (app : App) : App :=
  {| stack := stack app; settings := settings app ++ [(name, value)] |}.

Definition layer_applies (l : Layer) (req : Request) : bool :=
  match only_method l with
  | None => true
  | Some m => bool_decide (method req = m)
  end.

(** How the walk over the stack ends: a layer sent the response, or the
    stack ran out (Express then answers with its own final handler). *)
Inductive Final :=
  | Responded (req : Request) (res : Response)
  | FellThrough (err : option JsError) (req : Request) (res : Response).

(** Express's walk over the stack for one request.  Without a pending error
    the next applicable ordinary layer runs; with one, ordinary layers are
    skipped and the next error handler runs.  A layer that throws is treated
    as [next(err)].  The first component lists the layers that ran, in the
    order they ran. *)
Fixpoint dispatch (layers : list Layer) (err : option JsError)
    (req : Request) (res : Response) (w : World) : list StageId * (Final * World) :=
  match layers with
  | [] => ([], (FellThrough err req res, w))
  | l :: rest =>
      let continue (r : Result Outcome) :=
        match r with
        | Ok (Next req' res') w' =>
            let '(tr, fin) := dispatch rest None req' res' w' in (stage l :: tr, fin)
        | Ok (NextErr e req' res') w' =>
            let '(tr, fin) := dispatch rest (Some e) req' res' w' in (stage l :: tr, fin)
        | Ok (End req' res') w' => ([stage l], (Responded req' res', w'))
        | Throw e w' =>
            let '(tr, fin) := dispatch rest (Some e) req res w' in (stage l :: tr, fin)
        end in
      if layer_applies l req then
        match handler l, err with
        | Handle f, None => continue (f req res w)
        | HandleError f, Some e => continue (f e req res w)
        | _, _ => dispatch rest err req res w
        end
      else dispatch rest err req res w
  end.

(** ** The module's collaborators

    Everything [app.ts] imports and does not define: Sentry's two handlers
    (present or not), what the [cors] package does once the origin function
    has allowed a request, body parsing, file upload, the sitemap renderer,
    the router and the data layer's list of skins. *)

Record SentryHandlers := {
  requestHandler : Middleware;
  errorHandler : ErrorMiddleware
}.

Record UploadLimits := { fileSize : Z }.
Record UploadOptions := { limits : UploadLimits }.

Record Skin := { md5 : string; fileName : string }.

Class Collaborators := {
  Sentry : option SentryHandlers;
  cors_allowed : Middleware;
  bodyParser_json : Middleware;
  fileUpload : UploadOptions → Middleware;
  expressSitemapXml : M (list string) → string → Middleware;
  router : Middleware;
  Skins_getAllClassicSkins : M (list Skin)
}.

(** [cors(options)] with a function for [options.origin]: the package calls
    it with the request's [Origin] header; an error goes to [next(err)], and an
    allowed request goes on to the package's own header handling. *)
Definition cors `{Collaborators} (origin : option string → CorsDecision) : Middleware :=
  λ req res,
    match origin (headers_origin req) with
    | Deny err => ret (NextErr err req res)
    | Allow => cors_allowed req res
    end.

(** ** [createApp] and its stages *)

Section CreateApp.
Context `{Collaborators}.

(** [req.ctx = new UserContext(); next();] *)
Definition addUserContext : Middleware :=
  λ req res,
    let! c := new_UserContext in
    ret (Next (set_ctx c req) res).

(** [req.notify = (action) => { if (eventHandler) eventHandler(action, req.ctx) }; next();] *)
Definition attachEventHandler (eventHandler : option EventHandler) : Middleware :=
  λ req res,
    ret (Next (set_notify {| captured_eventHandler := eventHandler |} req) res).

(** [const context = {...}; req.log = ...; req.logError = ...; next();] *)
Definition attachLogger : Middleware :=
  λ req res,
    let context := {| context_url := url req;
                      context_params := params req;
                      context_query := query req |} in
    let req := set_log {| captured_context := context |} req in
    let req := set_logError {| captured_context := context |} req in
    ret (Next req res).

(** [const limits = { fileSize: 50 * 1024 * 1024 };] *)
Definition createApp_limits : UploadLimits := {| fileSize := 50 * 1024 * 1024 |}.

(** [function onError(err, req, res, next)] *)
Definition onError : ErrorMiddleware :=
  λ err req res,
    let res := set_statusCode 500 res in
    let res := res_json (VObject [("errorId", of_optional_string (sentry res));
                                  ("message", VString (message err))]) res in
    ret (End req res).

(** [async function getSitemapUrls()].  A rejected fetch rejects the
    result. *)
Definition getSitemapUrls : M (list string) :=
  let! md5s := Skins_getAllClassicSkins in
  let skinUrls := map (λ s, "skin/" +:+ md5 s +:+ "/" +:+ fileName s) md5s in
  ret (["/about"; "/"; "/upload"] ++ skinUrls).

Definition createApp (eventHandler : option EventHandler) : App :=
  let app := express in
  let app := match Sentry with
             | Some handlers => app_use SentryRequestHandler (Handle (requestHandler handlers)) app
             | None => app
             end in
  let app := app_use AddUserContext (Handle addUserContext) app in
  let app := app_use AttachEventHandler (Handle (attachEventHandler eventHandler)) app in
  let app := app_use AttachLogger (Handle attachLogger) app in
  let app := app_use Cors (Handle (cors corsOptions_origin)) app in
  let app := app_options CorsPreflight (Handle (cors corsOptions_origin)) app in
  let app := app_set "json spaces" (VNumber 2) app in
  let app := app_use BodyParserJson (Handle bodyParser_json) app in
  let limits := createApp_limits in
  let app := app_use FileUpload (Handle (fileUpload {| limits := limits |})) app in
  let app := app_use SitemapXml
               (Handle (expressSitemapXml getSitemapUrls "https://skins.webamp.org")) app in
  let app := app_use Routes (Handle router) app in
  let app := match Sentry with
             | Some handlers => app_use SentryErrorHandler (HandleError (errorHandler handlers)) app
             | None => app
             end in
  let app := app_use OnError (HandleError onError) app in
  app.

(** The stack [createApp] builds, by segments, for stating what holds of
    it. *)
Definition context_stages (eventHandler : option EventHandler) : list Layer :=
  [ Build_Layer AddUserContext None (Handle addUserContext);
    Build_Layer AttachEventHandler None (Handle (attachEventHandler eventHandler));
    Build_Layer AttachLogger None (Handle attachLogger) ].

Definition service_stages : list Layer :=
  [ Build_Layer Cors None (Handle (cors corsOptions_origin));
    Build_Layer CorsPreflight (Some "OPTIONS") (Handle (cors corsOptions_origin));
    Build_Layer BodyParserJson None (Handle bodyParser_json);
    Build_Layer FileUpload None (Handle (fileUpload {| limits := createApp_limits |}));
    Build_Layer SitemapXml None
      (Handle (expressSitemapXml getSitemapUrls "https://skins.webamp.org"));
    Build_Layer Routes None (Handle router) ].

Definition sentry_entry : list Layer :=
  match Sentry with
  | Some handlers => [Build_Layer SentryRequestHandler None (Handle (requestHandler handlers))]
  | None => []
  end.

Definition sentry_exit : list Layer :=
  match Sentry with
  | Some handlers => [Build_Layer SentryErrorHandler None (HandleError (errorHandler handlers))]
  | None => []
  end.

Definition error_boundary : Layer := Build_Layer OnError None (HandleError onError).

(** One request through the application. *)
Definition handle_request (app : App) (req : Request) (res : Response) (w : World)
    : list StageId * (Final * World) :=
  dispatch (stack app) None req res w.

End CreateApp.

(** The metadata of a request at a given moment: its URL, and the objects
    its [params] and [query] fields point to at that moment. *)
Definition request_metadata (req : Request) : LogContext :=
  {| context_url := url req; context_params := params req; context_query := query req |}.

(** ** A concrete deployment, for running the definitions *)
Module Sample.

Definition pass : Middleware := λ req res, ret (Next req res).

(** The [type] tag of an event. *)
Definition action_type (a : ApiAction) : string :=
  match a with
  | REVIEW_REQUESTED _ => "REVIEW_REQUESTED"
  | SKIN_UPLOADED _ => "SKIN_UPLOADED"
  | ERROR_PROCESSING_UPLOAD _ _ => "ERROR_PROCESSING_UPLOAD"
  end.

(** The event as the object the handler receives. *)
Definition action_value (a : ApiAction) : JsValue :=
  match a with
  | REVIEW_REQUESTED h | SKIN_UPLOADED h =>
      VObject [("type", VString (action_type a)); ("md5", VString h)]
  | ERROR_PROCESSING_UPLOAD i m =>
      VObject [("type", VString (action_type a)); ("id", VString i); ("message", VString m)]
  end.

(** A subscriber that writes what it receives to the console. *)
Definition console_subscriber : EventHandler :=
  λ action c, console_log [action_value action; of_optional_ref c].

(** A route [/skins/:md5] as Express runs it: the matched layer gets a params
    object of its own, then the handler logs and answers. *)
Definition skin_route : Middleware :=
  λ req res,
    let! p := new_object (Dict {[ "md5" := "abc" ]}) in
    let req := set_params p req in
    let! u := req_log req "serving skin" in
    ret (End req (res_json (VString "ok") res)).

(** A route whose handler throws. *)
Definition failing_route : Middleware :=
  λ req res, throw (Error "boom").

(** A Sentry that lets requests through and tags failed responses. *)
Definition sentry_handlers : SentryHandlers :=
  {| requestHandler := pass;
     errorHandler := λ err req res,
       ret (NextErr err req
              {| statusCode := statusCode res; sentry := Some "evt-1"; body := body res |}) |}.

Definition collaborators (s : option SentryHandlers) (routes : Middleware)
    (skins : M (list Skin)) : Collaborators :=
  {| Sentry := s;
     cors_allowed := pass;
     bodyParser_json := pass;
     fileUpload := λ _, pass;
     expressSitemapXml := λ _ _, pass;
     router := routes;
     Skins_getAllClassicSkins := skins |}.

(** Two empty objects, as Express leaves [req.params] and [req.query] for a
    request without a query string. *)
Definition world : World :=
  {| heap := {[ 0 := Dict ∅; 1 := Dict ∅ ]}; console := [] |}.

Definition request (origin : option string) : Request :=
  {| method := "GET"; url := "/skins/abc"; headers_origin := origin;
     params := 0; query := 1; ctx := None;
     notify := None; log := None; logError := None |}.

Definition response : Response :=
  {| statusCode := 200; sentry := None; body := None |}.

End Sample.

(** ** Callers

    The module's closures are called by route handlers, any number of times
    per request; a handler that calls them one after the other is a loop over
    the calls. *)

(** [for (const x of xs) f(x);] *)
Fixpoint for_each {A} (xs : list A) (f : A → M unit) : M unit :=
  match xs with
  | [] => ret ()
  | x :: xs' => let! u := f x in for_each xs' f
  end.

(** One logging call: [req.log(message)] or [req.logError(message)]. *)
Definition req_emit (req : Request) (call : Level * string) : M unit :=
  match call.1 with
  | LevelInfo => req_log req call.2
  | LevelError => req_logError req call.2
  end.

(** The context provider run for one request after the other, as the server
    does for requests that arrive in turn; the result keeps each request as
    the provider handed it on. *)
Fixpoint provide_contexts (reqs : list Request) (res : Response) : M (list Request) :=
  match reqs with
  | [] => ret []
  | req :: reqs' =>
      let! out := addUserContext req res in
      let! outs := provide_contexts reqs' res in
      ret (match out with
           | Next req' _ | NextErr _ req' _ | End req' _ => req' :: outs
           end)
  end.

(** No [/] among the characters of [s]. *)
Fixpoint slash_free (s : string) : bool :=
  match s with
  | EmptyString => true
  | String c s' => negb (bool_decide (c = ascii_of_nat 47)) && slash_free s'
  end.

(** What a walk over a stack that ends in [onError] can produce.  Either the
    boundary answered: it ran last, and the response is its 500 with the
    [{errorId, message}] body built from the error [e] and the response [res0]
    it was given. *)
Definition answered_by_boundary (r : list StageId * (Final * World)) : Prop :=
  ∃ pre e req' res0,
    r.1 = pre ++ [OnError] ∧ (OnError ∉ pre)
    ∧ r.2.1 = Responded req'
                {| statusCode := 500; sentry := sentry res0;
                   body := Some (VObject [("errorId", of_optional_string (sentry res0));
                                          ("message", VString (message e))]) |}.

(** Or the boundary did not run: an earlier layer sent the response, or the
    stack ran out with no error pending. *)
Definition boundary_not_reached (r : list StageId * (Final * World)) : Prop :=
  (OnError ∉ r.1)
  ∧ ((∃ req' res', r.2.1 = Responded req' res')
     ∨ (∃ req' res', r.2.1 = FellThrough None req' res')).

(** ** Proof support *)

(** Run through the members of a literal list, deciding each by
    evaluation. *)
Ltac each_member H :=
  repeat (apply elem_of_cons in H as [-> | H]; [vm_compute; reflexivity |]);
  by apply elem_of_nil in H.

(** * Properties *)

(** ** Regular expression search *)

Lemma append_nil_r (s : string) : s +:+ "" = s.
Proof. induction s as [|c s IH]; simpl; [done | by rewrite IH]. Qed.

Lemma append_assoc (a b c : string) : (a +:+ b) +:+ c = a +:+ (b +:+ c).
Proof. induction a as [|x a IH]; simpl; [done | by rewrite IH]. Qed.

(** Matching a prefix is matching all of some prefix. *)
Lemma match_here_spec (p : RegExp.t) (s : string) :
  RegExp.match_here p s = true ↔
  ∃ mid rest, s = mid +:+ rest ∧ RegExp.match_full p mid = true.
Proof.
  revert s. induction p as [|a p IH]; intros s; simpl.
  - split; [intros _; by exists "", s | done].
  - destruct s as [|c s].
    + split; [done | intros (mid & rest & Hs & Hm)].
      destruct mid; [done | discriminate Hs].
    + rewrite andb_true_iff, IH. split.
      * intros (Ha & mid & rest & -> & Hm).
        exists (String c mid), rest. simpl. by rewrite Ha, Hm.
      * intros (mid & rest & Hs & Hm). destruct mid as [|c' mid]; [done |].
        simpl in Hs. injection Hs as -> ->.
        apply andb_true_iff in Hm as [Ha Hm]. eauto.
Qed.

(** [test] succeeds exactly when the pattern matches all of some contiguous
    part of the subject. *)
Lemma test_spec (p : RegExp.t) (s : string) :
  RegExp.test p s = true ↔
  ∃ before mid after, s = before +:+ mid +:+ after ∧ RegExp.match_full p mid = true.
Proof.
  split.
  - induction s as [|c s IH]; simpl; rewrite orb_true_iff.
    + intros [Hm | ?]; [| done].
      apply match_here_spec in Hm as (mid & rest & ? & ?). by exists "", mid, rest.
    + intros [Hm | Ht].
      * apply match_here_spec in Hm as (mid & rest & ? & ?). by exists "", mid, rest.
      * destruct (IH Ht) as (before & mid & rest & -> & ?).
        by exists (String c before), mid, rest.
  - intros (before & mid & rest & -> & Hm).
    induction before as [|c before IH]; simpl.
    + assert (RegExp.match_here p (mid +:+ rest) = true) as Hh
        by (apply match_here_spec; eauto).
      destruct mid, rest; simpl in *; rewrite ?Hh; done.
    + rewrite IH. apply orb_true_r.
Qed.

(** A full match is in particular found by the search. *)
Lemma match_full_test (p : RegExp.t) (s : string) :
  RegExp.match_full p s = true → RegExp.test p s = true.
Proof.
  intros Hm. apply test_spec. exists "", s, "". by rewrite append_nil_r.
Qed.

(** The three literals of [allowList] stay inside the supported fragment. *)
Lemma allowList_literals_parse :
  is_Some (RegExp.parse "https:\/\/skins\.webamp\.org")
  ∧ is_Some (RegExp.parse "http:\/\/localhost:3000")
  ∧ is_Some (RegExp.parse "netlify.app").
Proof. repeat split; vm_compute; eauto. Qed.

(** ** OriginGate *)

Lemma existsb_elem_of {A} (f : A → bool) (l : list A) :
  existsb f l = true ↔ ∃ x, x ∈ l ∧ f x = true.
Proof.
  rewrite existsb_exists. split; intros (x & Hx & ?); exists x;
    (split; [by apply list_elem_of_In | done]).
Qed.

Lemma origin_check_allow (R : list RegExp.t) (o : option string) :
  origin_check R o = Allow ↔
  js_not o = true ∨ ∃ r, r ∈ R ∧ RegExp.test r (js_to_string o) = true.
Proof.
  unfold origin_check. rewrite <- existsb_elem_of, <- orb_true_iff.
  destruct (js_not o || _); split; done.
Qed.

Lemma denial_names_origin (R : list RegExp.t) (o : option string) (e : JsError) :
  origin_check R o = Deny e → occurs_in (js_to_string o) (message e).
Proof.
  unfold origin_check. destruct (js_not o || _); [done |].
  intros [= <-]. simpl.
  exists ("Request from origin " +:+ dquote), (dquote +:+ " not allowed by CORS.").
  by rewrite !append_assoc.
Qed.

(** C1 (as the code has it).  For every list of rules and every declared
    origin the gate allows exactly when the origin is absent, is the empty
    string, or is found by some rule; every other origin is denied, and the
    denial message contains the origin verbatim.  With the module's own rules
    ["https://skins.webamp.org"] is allowed, ["https://evil.example"] is denied
    with a message that contains it, and an absent origin is allowed. *)
Theorem origin_gate_decision (R : list RegExp.t) (o : option string) :
  (origin_check R o = Allow ↔
     o = None ∨ o = Some "" ∨ ∃ s r, o = Some s ∧ r ∈ R ∧ RegExp.test r s = true)
  ∧ (origin_check R o ≠ Allow →
     ∃ s reason, o = Some s ∧ origin_check R o = Deny (Error reason) ∧ occurs_in s reason)
  ∧ corsOptions_origin (Some "https://skins.webamp.org") = Allow
  ∧ (∃ reason, corsOptions_origin (Some "https://evil.example") = Deny (Error reason)
               ∧ occurs_in "https://evil.example" reason)
  ∧ corsOptions_origin None = Allow.
Proof.
  split; [| split; [| split; [| split]]].
  - rewrite origin_check_allow. split.
    + intros [Hn | (r & Hr & Ht)].
      * destruct o as [[|c s]|]; [by right; left | done | by left].
      * destruct o as [s|]; [right; right; by exists s, r |by left].
    + intros [-> | [-> | (s & r & -> & Hr & Ht)]]; [by left | by left | right; eauto].
  - intros Hna. destruct (origin_check R o) as [|[reason]] eqn:Hd; [done |].
    destruct o as [s|].
    + exists s, reason. split; [done |]. split; [done |].
      by apply (denial_names_origin R (Some s) (Error reason)).
    + by rewrite (proj2 (origin_check_allow R None)) in Hd by (by left).
  - by vm_compute.
  - eexists. split; [by vm_compute |].
    exists ("Request from origin " +:+ dquote), (dquote +:+ " not allowed by CORS.").
    by vm_compute.
  - by vm_compute.
Qed.

(** C1, the input on which the sentence of the specification fails: the
    empty string is a declared origin that no rule of [allowList] finds, and
    the gate does not deny it. *)
Lemma origin_gate_empty_origin :
  (∀ r, r ∈ allowList → RegExp.test r "" = false)
  ∧ corsOptions_origin (Some "") = Allow
  ∧ ¬ ∃ e, corsOptions_origin (Some "") = Deny e.
Proof.
  split; [intros r Hr; each_member Hr |].
  split; [by vm_compute |]. intros [e He]. vm_compute in He. discriminate.
Qed.

(** C6 (as the code has it).  A declared origin is allowed exactly when it
    is empty or some rule matches a contiguous part of it: the rules are
    searched for inside the origin, they need not cover it.  A rule that does
    match the whole origin allows it. *)
Theorem origin_gate_searches_inside_origin (R : list RegExp.t) (s : string) :
  (origin_check R (Some s) = Allow ↔
     s = "" ∨ ∃ r, r ∈ R ∧
       ∃ before mid after, s = before +:+ mid +:+ after ∧ RegExp.match_full r mid = true)
  ∧ ((∃ r, r ∈ R ∧ RegExp.match_full r s = true) → origin_check R (Some s) = Allow).
Proof.
  assert (origin_check R (Some s) = Allow ↔
     s = "" ∨ ∃ r, r ∈ R ∧
       ∃ before mid after, s = before +:+ mid +:+ after ∧ RegExp.match_full r mid = true)
    as Hiff.
  { rewrite origin_check_allow. simpl. split.
    - intros [Hn | (r & Hr & Ht)].
      + left. by destruct s.
      + right. exists r. split; [done |]. by apply test_spec.
    - intros [-> | (r & Hr & Hsub)]; [by left |].
      right. exists r. split; [done |]. by apply test_spec. }
  split; [done |].
  intros (r & Hr & Hm). apply Hiff. right. exists r. split; [done |].
  exists "", s, "". by rewrite append_nil_r.
Qed.

(** C6, the input on which the sentence of the specification fails: no rule
    of [allowList] matches the whole of
    ["https://skins.webamp.org.evil.example"], which only contains an allowed
    pattern, and the gate allows it. *)
Lemma origin_gate_allows_longer_origin :
  (∀ r, r ∈ allowList →
     RegExp.match_full r "https://skins.webamp.org.evil.example" = false)
  ∧ corsOptions_origin (Some "https://skins.webamp.org.evil.example") = Allow.
Proof.
  split; [intros r Hr; each_member Hr | by vm_compute].
Qed.

(** ** ErrorBoundary *)

(** In the presence of a pending error, ordinary layers are passed over. *)
Lemma dispatch_error_skips (skipped rest : list Layer) (e : JsError)
    (req : Request) (res : Response) (w : World) :
  Forall (λ l, ∃ f, handler l = Handle f) skipped →
  dispatch (skipped ++ rest) (Some e) req res w = dispatch rest (Some e) req res w.
Proof.
  induction 1 as [|l skipped [f Hf] _ IH]; [done |].
  simpl. rewrite Hf, IH. by destruct (layer_applies l req).
Qed.

(** C2.  Whatever error reaches [onError], with whatever request and
    response, the response is sent with status 500 and the body
    [{errorId, message}], where [message] is the error's message and [errorId]
    is the identifier found on the response ([undefined] when there is none).
    An error raised upstream passes every ordinary layer and ends there, so a
    denied origin and a throwing route both produce this response; a route
    that throws [Error("boom")] yields the message ["boom"]. *)
Theorem error_boundary_response (err : JsError) (req : Request) (res : Response) (w : World) :
  ∃ answer,
    onError err req res w = Ok (End req answer) w
    ∧ statusCode answer = 500%Z
    ∧ body answer = Some (VObject [("errorId", of_optional_string (sentry res));
                                   ("message", VString (message err))])
    ∧ (∀ skipped,
         Forall (λ l, ∃ f, handler l = Handle f) skipped →
         dispatch (skipped ++ [Build_Layer OnError None (HandleError onError)])
                  (Some err) req res w
         = ([OnError], (Responded req answer, w)))
    ∧ (corsOptions_origin (headers_origin req) = Deny err →
       ∀ C : Collaborators, cors corsOptions_origin req res w = Ok (NextErr err req res) w).
Proof.
  eexists. split; [reflexivity |]. split; [done |]. split; [done |]. split.
  - intros skipped Hs. by rewrite dispatch_error_skips.
  - intros Hd C. unfold cors. by rewrite Hd.
Qed.

(** C2 at [Error("boom")]: pending before the body parser, it is answered by
    the boundary with status 500, no identifier and the message ["boom"]. *)
Lemma error_boundary_response_boom :
  dispatch ([Build_Layer BodyParserJson None (Handle Sample.pass)]
              ++ [Build_Layer OnError None (HandleError onError)])
           (Some (Error "boom")) (Sample.request None) Sample.response Sample.world
  = ([OnError],
     (Responded (Sample.request None)
        {| statusCode := 500; sentry := None;
           body := Some (VObject [("errorId", VUndefined);
                                  ("message", VString "boom")]) |},
      Sample.world)).
Proof.
  destruct (error_boundary_response (Error "boom") (Sample.request None)
              Sample.response Sample.world) as (answer & Hrun & _ & _ & Hskip & _).
  rewrite Hskip by (repeat constructor; by eexists).
  injection Hrun as <-. reflexivity.
Defined.

(** A route that throws [Error("boom")], in a deployment with Sentry: the
    answer has status 500, the message ["boom"] and Sentry's identifier. *)
Example throwing_route_is_answered_500 :
  ∃ req w,
    (handle_request
       (@createApp (Sample.collaborators (Some Sample.sentry_handlers)
                      Sample.failing_route (ret [])) None)
       (Sample.request None) Sample.response Sample.world).2
    = (Responded req
         {| statusCode := 500; sentry := Some "evt-1";
            body := Some (VObject [("errorId", VString "evt-1");
                                   ("message", VString "boom")]) |}, w).
Proof. do 2 eexists. vm_compute. reflexivity. Qed.

(** A denied origin, in the same deployment: status 500 and the denial
    message. *)
Example denied_origin_is_answered_500 :
  ∃ req w,
    (handle_request
       (@createApp (Sample.collaborators (Some Sample.sentry_handlers)
                      Sample.pass (ret [])) None)
       (Sample.request (Some "https://evil.example")) Sample.response Sample.world).2
    = (Responded req
         {| statusCode := 500; sentry := Some "evt-1";
            body := Some (VObject
              [("errorId", VString "evt-1");
               ("message", VString ("Request from origin " +:+ dquote
                  +:+ "https://evil.example" +:+ dquote +:+ " not allowed by CORS."))]) |},
       w).
Proof. do 2 eexists. vm_compute. reflexivity. Qed.

(** ** EventNotifier *)

(** C3.  With a subscriber [h] given to [createApp], the stage stores a
    [notify] that, each time it is called on the request, is one call of [h]
    with the event it was given and the request's current [ctx], and nothing
    else.  For the subscriber that writes its arguments to the console, one
    call of [notify] adds exactly one line, holding that event and that
    context. *)
Theorem notify_calls_subscriber_once (h : EventHandler) (req : Request)
    (res : Response) (w : World) :
  ∃ req',
    attachEventHandler (Some h) req res w = Ok (Next req' res) w
    ∧ ctx req' = ctx req
    ∧ (∀ later action w',
         notify later = notify req' →
         req_notify later action w' = h action (ctx later) w')
    ∧ (∀ action w',
         h = Sample.console_subscriber →
         req_notify req' action w'
         = Ok () (set_console
                    (console w' ++ [{| level := LevelInfo;
                                       args := [Sample.action_value action;
                                                of_optional_ref (ctx req')] |}]) w')).
Proof.
  eexists. split; [reflexivity |]. split; [done |]. split.
  - intros later action w' Hn. unfold req_notify. by rewrite Hn.
  - by intros action w' ->.
Qed.

(** C3 on the sample request: after the provider and the notifier stage, one
    [notify] leaves one console line with the event and the request's
    context. *)
Lemma notify_calls_subscriber_once_sample :
  ∃ req' w',
    req_notify req' (SKIN_UPLOADED "abc") w'
    = Ok () (set_console
               [{| level := LevelInfo;
                   args := [VObject [("type", VString "SKIN_UPLOADED");
                                     ("md5", VString "abc")];
                            VRef 2] |}] w')
    ∧ ctx req' = Some 2.
Proof.
  destruct (notify_calls_subscriber_once Sample.console_subscriber
              (set_ctx 2 (Sample.request None)) Sample.response Sample.world)
    as (req' & Hrun & Hctx & _ & Hline).
  exists req', Sample.world. split.
  - rewrite (Hline (SKIN_UPLOADED "abc") Sample.world eq_refl), Hctx. reflexivity.
  - exact Hctx.
Defined.

(** C4.  Without a subscriber, the [notify] the stage stores returns
    normally and leaves the store as it found it, for every event and at any
    later point of the request. *)
Theorem notify_without_subscriber_is_noop (req : Request) (res : Response) (w : World) :
  ∃ req',
    attachEventHandler None req res w = Ok (Next req' res) w
    ∧ (∀ (action : ApiAction) (w' : World), req_notify req' action w' = Ok () w')
    ∧ (∀ later (action : ApiAction) (w' : World),
         notify later = notify req' → req_notify later action w' = Ok () w').
Proof.
  eexists. split; [reflexivity |]. split; [done |].
  intros later action w' Hn. unfold req_notify. by rewrite Hn.
Qed.

(** C4 on the sample request, for one event of each kind. *)
Lemma notify_without_subscriber_is_noop_sample :
  ∃ req',
    attachEventHandler None (Sample.request None) Sample.response Sample.world
    = Ok (Next req' Sample.response) Sample.world
    ∧ req_notify req' (REVIEW_REQUESTED "abc") Sample.world = Ok () Sample.world
    ∧ req_notify (set_params 3 req') (SKIN_UPLOADED "abc") Sample.world = Ok () Sample.world
    ∧ req_notify req' (ERROR_PROCESSING_UPLOAD "1" "bad file") Sample.world
      = Ok () Sample.world.
Proof.
  destruct (notify_without_subscriber_is_noop (Sample.request None) Sample.response
              Sample.world) as (req' & Hrun & Hcall & Hlater).
  exists req'. split; [exact Hrun |]. split; [apply Hcall |].
  split; [by apply Hlater | apply Hcall].
Defined.

(** ** SitemapProvider *)

(** C5.  When the data layer returns [items], the sitemap is the three fixed
    paths in their literal order followed by one [skin/{md5}/{fileName}] entry
    per item, in the order returned; when the data layer fails, so does the
    sitemap. *)
Theorem sitemap_urls `{Collaborators} (w : World) :
  match Skins_getAllClassicSkins w with
  | Ok items w' =>
      ∃ urls,
        getSitemapUrls w = Ok urls w'
        ∧ urls = ["/about"; "/"; "/upload"]
                 ++ map (λ s, "skin/" +:+ md5 s +:+ "/" +:+ fileName s) items
        ∧ take 3 urls = ["/about"; "/"; "/upload"]
        ∧ length urls = 3 + length items
        ∧ ∀ i s, items !! i = Some s →
                 urls !! (3 + i) = Some ("skin/" +:+ md5 s +:+ "/" +:+ fileName s)
  | Throw e w' => getSitemapUrls w = Throw e w'
  end.
Proof.
  unfold getSitemapUrls, bind.
  destruct (Skins_getAllClassicSkins w) as [items w'|e w']; [| done].
  eexists. split; [reflexivity |]. split; [done |]. split; [done |]. split.
  - simpl. by rewrite length_map.
  - intros i s Hi. simpl. by rewrite list_lookup_fmap, Hi.
Qed.

(** C5 on the item [{md5: "abc", fileName: "foo.wal"}]. *)
Lemma sitemap_urls_sample :
  @getSitemapUrls
    (Sample.collaborators None Sample.pass
       (ret [{| md5 := "abc"; fileName := "foo.wal" |}])) Sample.world
  = Ok ["/about"; "/"; "/upload"; "skin/abc/foo.wal"] Sample.world.
Proof.
  destruct (@sitemap_urls
              (Sample.collaborators None Sample.pass
                 (ret [{| md5 := "abc"; fileName := "foo.wal" |}])) Sample.world)
    as (urls & -> & -> & _).
  reflexivity.
Defined.

(** ** Upload limits *)

(** C10.  The limit handed to the upload middleware is [50 * 1024 * 1024],
    that is 52428800 bytes, for every application [createApp] builds. *)
Theorem upload_limit_is_50_MiB `{Collaborators} (h : option EventHandler) :
  fileSize createApp_limits = (50 * 1024 * 1024)%Z
  ∧ fileSize createApp_limits = 52428800%Z
  ∧ Build_Layer FileUpload None
      (Handle (fileUpload {| limits := {| fileSize := 52428800 |} |}))
    ∈ stack (createApp h).
Proof.
  split; [done |]. split; [done |].
  unfold createApp. destruct Sentry; simpl; repeat constructor.
Qed.

(** ** RequestContextProvider *)

Lemma new_UserContext_fresh (w : World) :
  new_UserContext w
  = Ok (fresh_loc w) (set_heap (<[fresh_loc w := UserContextInstance]> (heap w)) w)
  ∧ fresh_loc w ∉ dom (heap w).
Proof. split; [done | unfold fresh_loc; apply is_fresh]. Qed.

(** The three context stages always hand the request on, with the new
    context attached. *)
Lemma dispatch_context_stages (h : option EventHandler) (downstream : list Layer)
    (req : Request) (res : Response) (w : World) :
  dispatch (context_stages h ++ downstream) None req res w
  = let req' := set_logError {| captured_context := request_metadata req |}
                  (set_log {| captured_context := request_metadata req |}
                     (set_notify {| captured_eventHandler := h |}
                        (set_ctx (fresh_loc w) req))) in
    let w' := set_heap (<[fresh_loc w := UserContextInstance]> (heap w)) w in
    let '(tr, fin) := dispatch downstream None req' res w' in
    (AddUserContext :: AttachEventHandler :: AttachLogger :: tr, fin).
Proof.
  unfold request_metadata. simpl.
  by destruct (dispatch downstream _ _ _ _) as [tr fin].
Qed.

(** C8.  For every request the provider creates one object, a
    [UserContext] at a location [c] that was free; the requests seen by the
    notifier stage, by the logger stage and by the first stage downstream all
    have [ctx = c]; [notify] passes [c] to the subscriber; and a request
    handled while [c] is still live receives a context other than [c]. *)
Theorem one_context_per_request (h : option EventHandler) (req : Request)
    (res : Response) (w : World) :
  ∃ c req1 req2 req3 w',
    addUserContext req res w = Ok (Next req1 res) w'
    ∧ attachEventHandler h req1 res w' = Ok (Next req2 res) w'
    ∧ attachLogger req2 res w' = Ok (Next req3 res) w'
    ∧ ctx req1 = Some c ∧ ctx req2 = Some c ∧ ctx req3 = Some c
    ∧ (c ∉ dom (heap w))
    ∧ heap w' = <[c := UserContextInstance]> (heap w)
    ∧ (∀ downstream,
         dispatch (context_stages h ++ downstream) None req res w
         = let '(tr, fin) := dispatch downstream None req3 res w' in
           (AddUserContext :: AttachEventHandler :: AttachLogger :: tr, fin))
    ∧ (∀ action w'',
         req_notify req3 action w''
         = match h with
           | Some f => f action (Some c) w''
           | None => Ok () w''
           end)
    ∧ (∀ reqB resB wB,
         c ∈ dom (heap wB) →
         ∃ cB reqB' wB',
           addUserContext reqB resB wB = Ok (Next reqB' resB) wB'
           ∧ ctx reqB' = Some cB ∧ cB ≠ c).
Proof.
  exists (fresh_loc w). do 4 eexists.
  split; [reflexivity |]. split; [reflexivity |]. split; [reflexivity |].
  split; [done |]. split; [done |]. split; [done |].
  split; [apply new_UserContext_fresh |]. split; [done |]. split; [| split].
  - intros downstream. by rewrite dispatch_context_stages.
  - intros action w''. unfold req_notify. simpl. by destruct h.
  - intros reqB resB wB Hlive. exists (fresh_loc wB). do 2 eexists.
    split; [reflexivity |]. split; [done |].
    intros Heq. rewrite <- Heq in Hlive. by apply new_UserContext_fresh in Hlive.
Qed.

(** C8 on two requests handled one after the other: the first receives the
    context at location 2, the second a context elsewhere. *)
Lemma one_context_per_request_sample :
  ∃ reqA wA cB reqB wB,
    addUserContext (Sample.request None) Sample.response Sample.world
    = Ok (Next reqA Sample.response) wA
    ∧ ctx reqA = Some 2
    ∧ addUserContext (Sample.request (Some "http://localhost:3000")) Sample.response wA
      = Ok (Next reqB Sample.response) wB
    ∧ ctx reqB = Some cB ∧ cB ≠ 2.
Proof.
  destruct (one_context_per_request None (Sample.request None) Sample.response
              Sample.world)
    as (c & reqA & req2 & req3 & wA & HA & _ & _ & Hc & _ & _ & _ & Hheap & _ & _ & Hother).
  assert (c = 2) as ->.
  { pose proof HA as HA'. vm_compute in HA'. injection HA' as <- _.
    simpl in Hc. by injection Hc. }
  destruct (Hother (Sample.request (Some "http://localhost:3000")) Sample.response wA)
    as (cB & reqB & wB & HB & HcB & Hne).
  { rewrite Hheap. set_solver. }
  by exists reqA, wA, cB, reqB, wB.
Defined.

(** ** RequestLogger *)

(** C7 (as the code has it).  The logger stage builds the metadata once,
    from the request as it is when the stage runs: its URL and the objects its
    [params] and [query] fields then point to.  Every later call of [log]
    emits the message with that metadata at info level, and every later call
    of [logError] emits it at error level, whatever the request's fields have
    become by the time of the call. *)
Theorem logger_metadata_is_fixed_by_the_stage (req : Request) (res : Response) (w : World) :
  ∃ req',
    attachLogger req res w = Ok (Next req' res) w
    ∧ ∀ later message w',
        log later = log req' → logError later = logError req' →
        req_log later message w'
        = Ok () (set_console
                   (console w' ++ [{| level := LevelInfo;
                                      args := [VString message;
                                               LogContext_value (request_metadata req)] |}])
                   w')
        ∧ req_logError later message w'
          = Ok () (set_console
                     (console w' ++ [{| level := LevelError;
                                        args := [VString message;
                                                 LogContext_value (request_metadata req)] |}])
                     w').
Proof.
  eexists. split; [reflexivity |].
  intros later message w' Hl He. unfold req_log, req_logError. by rewrite Hl, He.
Qed.

(** C7 on the sample request, after the router has given it a params object
    of its own: [log] still emits the params object of the logger stage. *)
Lemma logger_metadata_is_fixed_by_the_stage_sample :
  ∃ req',
    attachLogger (Sample.request None) Sample.response Sample.world
    = Ok (Next req' Sample.response) Sample.world
    ∧ req_log (set_params 3 req') "serving skin" Sample.world
      = Ok () (set_console
                 [{| level := LevelInfo;
                     args := [VString "serving skin";
                              VObject [("url", VString "/skins/abc");
                                       ("params", VRef 0); ("query", VRef 1)]] |}]
                 Sample.world).
Proof.
  destruct (logger_metadata_is_fixed_by_the_stage (Sample.request None)
              Sample.response Sample.world) as (req' & Hrun & Hcalls).
  exists req'. split; [exact Hrun |].
  by destruct (Hcalls (set_params 3 req') "serving skin" Sample.world eq_refl eq_refl)
    as [-> _].
Defined.

(** C7, the input on which the sentence of the specification fails.  A
    request for [/skins/abc] goes through the application; the router gives it
    the params object [{md5: "abc"}] (location 3) and the route calls [log].
    The line on the console holds the params object of the logger stage
    (location 0, empty), not the one the request has when [log] is called. *)
Lemma logger_metadata_is_not_taken_at_call_time :
  ∃ tr req res w,
    handle_request
      (@createApp (Sample.collaborators None Sample.skin_route (ret [])) None)
      (Sample.request None) Sample.response Sample.world
    = (tr, (Responded req res, w))
    ∧ console w
      = [{| level := LevelInfo;
            args := [VString "serving skin";
                     VObject [("url", VString "/skins/abc");
                              ("params", VRef 0); ("query", VRef 1)]] |}]
    ∧ heap w !! 0 = Some (Dict ∅)
    ∧ params req = 3
    ∧ heap w !! 3 = Some (Dict {[ "md5" := "abc" ]})
    ∧ console w
      ≠ [{| level := LevelInfo;
            args := [VString "serving skin"; LogContext_value (request_metadata req)] |}].
Proof.
  do 4 eexists. split; [vm_compute; reflexivity |].
  split; [done |]. split; [done |]. split; [done |]. split; [done |].
  simpl. intros [=].
Qed.

(** ** AppBuilder *)

Section Pipeline.
Context `{Collaborators}.

Lemma createApp_stack (h : option EventHandler) :
  stack (createApp h)
  = sentry_entry ++ context_stages h ++ service_stages ++ sentry_exit ++ [error_boundary].
Proof. unfold createApp, sentry_entry, sentry_exit. by destruct Sentry. Qed.

(** The layers that run for a request run in stack order, each at most
    once. *)
Lemma dispatch_trace_sublist (layers : list Layer) (err : option JsError)
    (req : Request) (res : Response) (w : World) :
  (dispatch layers err req res w).1 `sublist_of` (stage <$> layers).
Proof.
  revert err req res w. induction layers as [|l layers IH]; intros err req res w.
  - apply sublist_nil_l.
  - assert (∀ r : Result Outcome,
      (match r with
       | Ok (Next req' res') w' =>
           let '(tr, fin) := dispatch layers None req' res' w' in (stage l :: tr, fin)
       | Ok (NextErr e req' res') w' =>
           let '(tr, fin) := dispatch layers (Some e) req' res' w' in (stage l :: tr, fin)
       | Ok (End req' res') w' => ([stage l], (Responded req' res', w'))
       | Throw e w' =>
           let '(tr, fin) := dispatch layers (Some e) req res w' in (stage l :: tr, fin)
       end).1 `sublist_of` (stage l :: (stage <$> layers))) as Hstep.
    { intros [[req' res'|e req' res'|req' res'] w'|e w'].
      - specialize (IH None req' res' w'). destruct (dispatch layers _ _ _ _).
        by apply sublist_skip.
      - specialize (IH (Some e) req' res' w'). destruct (dispatch layers _ _ _ _).
        by apply sublist_skip.
      - apply sublist_skip, sublist_nil_l.
      - specialize (IH (Some e) req res w'). destruct (dispatch layers _ _ _ _).
        by apply sublist_skip. }
    simpl. destruct (layer_applies l req); [| by apply sublist_cons].
    destruct (handler l) as [f|f], err as [e|];
      first [apply Hstep | by apply sublist_cons].
Qed.

Lemma context_stages_ordinary (h : option EventHandler) :
  Forall (λ l, ∃ f, handler l = Handle f) (context_stages h).
Proof. repeat constructor; by eexists. Qed.

Lemma service_stages_ordinary :
  Forall (λ l, ∃ f, handler l = Handle f) service_stages.
Proof. repeat constructor; by eexists. Qed.

(** Once an error is pending before the context stages, only Sentry's error
    handler and the boundary can still run. *)
Lemma dispatch_error_before_context (h : option EventHandler) (e : JsError)
    (req : Request) (res : Response) (w : World) :
  (dispatch (context_stages h ++ service_stages ++ sentry_exit ++ [error_boundary])
            (Some e) req res w).1
  `sublist_of` [SentryErrorHandler; OnError].
Proof.
  rewrite dispatch_error_skips by apply context_stages_ordinary.
  rewrite dispatch_error_skips by apply service_stages_ordinary.
  etrans; [apply dispatch_trace_sublist |].
  unfold sentry_exit. destruct Sentry; simpl; [done |].
  apply sublist_cons. done.
Qed.

(** C9.  The stack [createApp] builds lists its stages in the order of the
    source: Sentry's request handler when present, the context provider, the
    notifier, the logger, CORS and the pre-flight responder, body parsing, file
    upload, the sitemap, the routes, Sentry's error handler when present, and
    the error boundary last.  For every request the layers that run do so in
    that order; and whenever the notifier, the logger or any stage after them
    up to the routes runs, the provider, the notifier and the logger have run
    just before, in this order. *)
Theorem createApp_stage_order (h : option EventHandler) :
  stage <$> stack (createApp h)
  = match Sentry with Some _ => [SentryRequestHandler] | None => [] end
    ++ [AddUserContext; AttachEventHandler; AttachLogger;
        Cors; CorsPreflight; BodyParserJson; FileUpload; SitemapXml; Routes]
    ++ match Sentry with Some _ => [SentryErrorHandler] | None => [] end
    ++ [OnError]
  ∧ last (stack (createApp h)) = Some (Build_Layer OnError None (HandleError onError))
  ∧ (∀ req res w,
       (handle_request (createApp h) req res w).1 `sublist_of` (stage <$> stack (createApp h)))
  ∧ (∀ req res w s,
       s ∈ (handle_request (createApp h) req res w).1 →
       s ∈ [AttachEventHandler; AttachLogger; Cors; CorsPreflight; BodyParserJson;
            FileUpload; SitemapXml; Routes] →
       ∃ before after,
         (handle_request (createApp h) req res w).1
         = before ++ [AddUserContext; AttachEventHandler; AttachLogger] ++ after
         ∧ before `sublist_of` [SentryRequestHandler]).
Proof.
  split; [| split; [| split]].
  - unfold createApp. by destruct Sentry.
  - rewrite createApp_stack, !app_assoc. apply last_snoc.
  - intros req res w. apply dispatch_trace_sublist.
  - intros req res w s. unfold handle_request. rewrite createApp_stack.
    assert (∀ e req' res' w' pre,
      s ∈ pre ++ (dispatch (context_stages h ++ service_stages ++ sentry_exit
                              ++ [error_boundary]) (Some e) req' res' w').1 →
      pre `sublist_of` [SentryRequestHandler] →
      s ∈ [AttachEventHandler; AttachLogger; Cors; CorsPreflight; BodyParserJson;
           FileUpload; SitemapXml; Routes] → False) as Herr.
    { intros e req' res' w' pre Hin Hpre Hs.
      apply elem_of_app in Hin as [Hin | Hin].
      - eapply elem_of_sublist in Hin; [| exact Hpre].
        set_unfold. destruct_or!; simplify_eq.
      - eapply elem_of_sublist in Hin; [| apply dispatch_error_before_context].
        set_unfold. destruct_or!; simplify_eq. }
    unfold sentry_entry. destruct Sentry as [handlers|] eqn:HS.
    + cbn [app dispatch layer_applies only_method handler stage].
      destruct (requestHandler handlers req res w)
        as [[req' res'|e req' res'|req' res'] w'|e w'].
      * rewrite dispatch_context_stages. cbv zeta.
        destruct (dispatch _ None _ _ _) as [tr fin]. intros _ _.
        exists [SentryRequestHandler], tr. split; [done |]. done.
      * destruct (dispatch _ (Some e) req' res' w') as [tr fin] eqn:Hd.
        intros Hin Hs. exfalso.
        apply (Herr e req' res' w' [SentryRequestHandler]); [| done | done].
        rewrite Hd. exact Hin.
      * intros Hin Hs. simpl in Hin. set_unfold. destruct_or!; simplify_eq.
      * destruct (dispatch _ (Some e) req res w') as [tr fin] eqn:Hd.
        intros Hin Hs. exfalso.
        apply (Herr e req res w' [SentryRequestHandler]); [| done | done].
        rewrite Hd. exact Hin.
    + cbn [app]. rewrite dispatch_context_stages. cbv zeta.
      destruct (dispatch _ None _ _ _) as [tr fin]. intros _ _.
      exists [], tr. split; [done |]. apply sublist_nil_l.
Qed.

End Pipeline.

(** C9 on the sample deployment with Sentry present: the routes run for a
    plain [GET], so the three context stages ran first, after at most Sentry's
    request handler. *)
Lemma createApp_stage_order_sample :
  ∃ before after,
    (handle_request
       (@createApp (Sample.collaborators (Some Sample.sentry_handlers)
                      Sample.skin_route (ret [])) None)
       (Sample.request None) Sample.response Sample.world).1
    = before ++ [AddUserContext; AttachEventHandler; AttachLogger] ++ after
    ∧ before `sublist_of` [SentryRequestHandler].
Proof.
  destruct (@createApp_stage_order
              (Sample.collaborators (Some Sample.sentry_handlers)
                 Sample.skin_route (ret [])) None) as (_ & _ & _ & Hbefore).
  apply (Hbefore (Sample.request None) Sample.response Sample.world Routes).
  - vm_compute. repeat constructor.
  - repeat constructor.
Defined.

(** The order in which the stages of the sample deployment run for a plain
    [GET], with Sentry present. *)
Example sample_request_trace :
  (handle_request
     (@createApp (Sample.collaborators (Some Sample.sentry_handlers)
                    Sample.skin_route (ret [])) None)
     (Sample.request None) Sample.response Sample.world).1
  = [SentryRequestHandler; AddUserContext; AttachEventHandler; AttachLogger;
     Cors; BodyParserJson; FileUpload; SitemapXml; Routes].
Proof. by vm_compute. Qed.

(** * Further properties of the module *)

(** ** More on the origin gate *)

Lemma length_append (a b : string) :
  String.length (a +:+ b) = String.length a + String.length b.
Proof. induction a as [|c a IH]; simpl; [done | by rewrite IH]. Qed.

Lemma append_cancel_r (a b t : string) : a +:+ t = b +:+ t → a = b.
Proof.
  revert b. induction a as [|c a IH]; intros [|d b] Heq; simpl in Heq.
  - done.
  - apply (f_equal String.length) in Heq. simpl in Heq.
    rewrite length_append in Heq. lia.
  - apply (f_equal String.length) in Heq. simpl in Heq.
    rewrite length_append in Heq. lia.
  - injection Heq as -> Heq. f_equal. by apply IH.
Qed.

(** A pattern of ordinary characters matches exactly its own text. *)
Lemma match_full_literals (text mid : string) :
  RegExp.match_full (RegExp.Lit <$> list_ascii_of_string text) mid = true ↔ mid = text.
Proof.
  revert mid. induction text as [|c text IH]; intros [|d mid]; simpl; try done.
  rewrite andb_true_iff, IH, bool_decide_eq_true. split.
  - by intros [-> ->].
  - by intros [= -> ->].
Qed.

Lemma match_full_app (p q : RegExp.t) (s : string) :
  RegExp.match_full (p ++ q) s = true ↔
  ∃ s1 s2, s = s1 +:+ s2 ∧ RegExp.match_full p s1 = true ∧ RegExp.match_full q s2 = true.
Proof.
  revert s. induction p as [|a p IH]; intros s; simpl.
  - split.
    + intros Hq. by exists "", s.
    + intros (s1 & s2 & -> & Hp & Hq). by destruct s1.
  - destruct s as [|c s].
    + split; [done |]. intros (s1 & s2 & Hs & Hp & _). by destruct s1.
    + rewrite andb_true_iff, IH. split.
      * intros (Ha & s1 & s2 & -> & Hp & Hq).
        exists (String c s1), s2. simpl. by rewrite Ha, Hp.
      * intros (s1 & s2 & Hs & Hp & Hq). destruct s1 as [|c' s1]; [done |].
        simpl in Hs. injection Hs as -> ->.
        apply andb_true_iff in Hp as [Ha Hp]. eauto 6.
Qed.

(** A match consumes one character per atom of the pattern. *)
Lemma match_here_length (p : RegExp.t) (s : string) :
  RegExp.match_here p s = true → length p ≤ String.length s.
Proof.
  revert s. induction p as [|a p IH]; intros [|c s]; simpl; try done; [lia |].
  intros [_ Hm]%andb_true_iff. apply IH in Hm. lia.
Qed.

Lemma test_length (p : RegExp.t) (s : string) :
  RegExp.test p s = true → length p ≤ String.length s.
Proof.
  induction s as [|c s IH]; simpl; rewrite orb_true_iff.
  - intros [Hm | ?]; [by apply match_here_length in Hm | done].
  - intros [Hm | Ht]; [by apply match_here_length in Hm |].
    apply IH in Ht. lia.
Qed.

(** X1.  What [allowList] lets through, spelled out: a declared origin is
    allowed exactly when it is empty, or contains ["https://skins.webamp.org"],
    or contains ["http://localhost:3000"], or contains ["netlify"] and ["app"]
    separated by one character of any kind other than a line break. *)
Theorem allowList_admits (s : string) :
  corsOptions_origin (Some s) = Allow ↔
    s = ""
    ∨ occurs_in "https://skins.webamp.org" s
    ∨ occurs_in "http://localhost:3000" s
    ∨ ∃ c, RegExp.line_terminator c = false
           ∧ occurs_in ("netlify" +:+ String c "app") s.
Proof.
  unfold corsOptions_origin. rewrite origin_check_allow. simpl.
  assert (js_not (Some s) = true ↔ s = "") as -> by (by destruct s).
  assert (∀ text, occurs_in text s ↔
            RegExp.test (RegExp.Lit <$> list_ascii_of_string text) s = true) as Hlit.
  { intros text. rewrite test_spec. unfold occurs_in. split.
    - intros (b & a & ->). exists b, text, a. split; [done |].
      by apply match_full_literals.
    - intros (b & mid & a & -> & ->%match_full_literals). eauto. }
  assert ((∃ c, RegExp.line_terminator c = false
                ∧ occurs_in ("netlify" +:+ String c "app") s) ↔
          RegExp.test (RegExp.literal "netlify.app") s = true) as Hwild.
  { change (RegExp.literal "netlify.app")
      with ((RegExp.Lit <$> list_ascii_of_string "netlify")
              ++ RegExp.AnyChar :: (RegExp.Lit <$> list_ascii_of_string "app")).
    rewrite test_spec. split.
    - intros (c & Hc & b & a & ->). exists b, ("netlify" +:+ String c "app"), a.
      split; [done |]. apply match_full_app. exists "netlify", (String c "app").
      split; [done |]. split; [by apply match_full_literals |].
      simpl. by rewrite Hc.
    - intros (b & mid & a & -> & Hm). apply match_full_app in Hm
        as (s1 & s2 & -> & ->%match_full_literals & H2).
      destruct s2 as [|c s2]; [done |].
      change (negb (RegExp.line_terminator c)
              && RegExp.match_full (RegExp.Lit <$> list_ascii_of_string "app") s2 = true)
        in H2.
      apply andb_true_iff in H2 as [Hc ->%match_full_literals].
      exists c. split; [by apply negb_true_iff |]. by exists b, a. }
  rewrite (Hlit "https://skins.webamp.org"), (Hlit "http://localhost:3000"), Hwild.
  split.
  - intros [? | (r & Hr & Ht)]; [by left | right].
    unfold allowList in Hr.
    apply elem_of_cons in Hr as [-> | Hr]; [by left |].
    apply elem_of_cons in Hr as [-> | Hr]; [by right; left |].
    apply elem_of_cons in Hr as [-> | Hr]; [by right; right |].
    by apply elem_of_nil in Hr.
  - intros [? | [Ht | [Ht | Ht]]]; [by left | right ..].
    + eexists. split; [| exact Ht]. unfold allowList. apply list_elem_of_here.
    + eexists. split; [| exact Ht]. unfold allowList.
      apply list_elem_of_further, list_elem_of_here.
    + eexists. split; [| exact Ht]. unfold allowList.
      do 2 apply list_elem_of_further. apply list_elem_of_here.
Qed.

(** X2.  A rule cannot be found in an origin shorter than the rule: a
    declared, non-empty origin that is shorter than every rule is denied.  The
    shortest rule of [allowList] has eleven atoms, so every non-empty origin of
    at most ten characters is denied. *)
Theorem short_origin_is_denied (R : list RegExp.t) (s : string) :
  s ≠ "" →
  (∀ r, r ∈ R → String.length s < length r) →
  (∃ e, origin_check R (Some s) = Deny e)
  ∧ (String.length s ≤ 10 → ∃ e, corsOptions_origin (Some s) = Deny e).
Proof.
  intros Hs Hshort.
  assert (∀ R', (∀ r, r ∈ R' → String.length s < length r) →
                ∃ e, origin_check R' (Some s) = Deny e) as Hgen.
  { intros R' HR'. destruct (origin_check R' (Some s)) as [|e] eqn:Hd; [| by eexists].
    apply origin_check_allow in Hd as [Hn | (r & Hr & Ht)].
    - by destruct s.
    - apply test_length in Ht. apply HR' in Hr. simpl in Ht. lia. }
  split; [by apply Hgen |].
  intros Hten. apply Hgen. intros r Hr. unfold allowList in Hr.
  repeat (apply elem_of_cons in Hr as [-> | Hr]; [vm_compute length; lia |]).
  by apply elem_of_nil in Hr.
Qed.

(** X2 at the origin ["null"], which browsers send for opaque origins. *)
Lemma short_origin_is_denied_null :
  ∃ e, corsOptions_origin (Some "null") = Deny e.
Proof.
  destruct (short_origin_is_denied allowList "null") as [_ Hten].
  - done.
  - intros r Hr. unfold allowList in Hr.
    repeat (apply elem_of_cons in Hr as [-> | Hr]; [vm_compute; lia |]).
    by apply elem_of_nil in Hr.
  - apply Hten. simpl. lia.
Defined.

(** X3.  Text around an allowed origin does not change the decision: if a
    non-empty origin is allowed, so is every origin that contains it, under any
    rules. *)
Theorem allowed_origin_stays_allowed_inside (R : list RegExp.t)
    (s before after : string) :
  s ≠ "" →
  origin_check R (Some s) = Allow →
  origin_check R (Some (before +:+ s +:+ after)) = Allow.
Proof.
  intros Hs Ha. apply origin_check_allow in Ha as [Hn | (r & Hr & Ht)].
  { by destruct s. }
  apply origin_check_allow. right. exists r. split; [done |].
  simpl in *. apply test_spec in Ht as (b & mid & a & -> & Hm).
  apply test_spec. exists (before +:+ b), mid, (a +:+ after).
  split; [| done]. by rewrite !append_assoc.
Qed.

(** X3 at the production origin inside a hostile host name. *)
Lemma allowed_origin_stays_allowed_inside_sample :
  corsOptions_origin (Some ("https://evil.example/?" +:+ "https://skins.webamp.org"
                              +:+ ".evil.example")) = Allow.
Proof.
  apply (allowed_origin_stays_allowed_inside allowList "https://skins.webamp.org").
  - done.
  - by vm_compute.
Defined.

(** X4.  The decision grows with the rules: what a list of rules allows,
    every longer list allows; two lists together allow what either allows; and
    with no rule at all only an absent or empty origin is allowed. *)
Theorem origin_check_rules (R R' : list RegExp.t) (o : option string) :
  (R ⊆ R' → origin_check R o = Allow → origin_check R' o = Allow)
  ∧ (origin_check (R ++ R') o = Allow ↔
       origin_check R o = Allow ∨ origin_check R' o = Allow)
  ∧ (origin_check [] o = Allow ↔ o = None ∨ o = Some "").
Proof.
  split; [| split].
  - intros Hsub. rewrite !origin_check_allow.
    intros [? | (r & Hr & Ht)]; [by left | right]. exists r. split; [by apply Hsub | done].
  - rewrite !origin_check_allow. split.
    + intros [? | (r & [Hr | Hr]%elem_of_app & Ht)]; [by left; left | left | right];
        right; eauto.
    + intros [[? | (r & Hr & Ht)] | [? | (r & Hr & Ht)]]; [by left | | by left |];
        right; exists r; (split; [| done]); apply elem_of_app; auto.
  - rewrite origin_check_allow. split.
    + intros [Hn | (r & Hr & _)]; [| by apply elem_of_nil in Hr].
      destruct o as [[|c s]|]; [by right | done | by left].
    + intros [-> | ->]; by left.
Qed.

(** X5.  A denial names one origin only: two denials with the same error
    were issued for the same origin, whatever the rules. *)
Theorem denial_identifies_origin (R R' : list RegExp.t) (o o' : option string)
    (e : JsError) :
  origin_check R o = Deny e → origin_check R' o' = Deny e → o = o'.
Proof.
  unfold origin_check.
  destruct (js_not o || _) eqn:Ho; [done |]. destruct (js_not o' || _) eqn:Ho'; [done |].
  intros [= <-] [= Hmsg].
  apply orb_false_iff in Ho as [Ho _]. apply orb_false_iff in Ho' as [Ho' _].
  destruct o as [s|]; [| done]. destruct o' as [s'|]; [| done]. simpl in Hmsg.
  f_equal. symmetry. by apply append_cancel_r in Hmsg.
Qed.

(** X5 on ["https://evil.example"], denied by [allowList] and by the empty
    list of rules with one and the same error. *)
Lemma denial_identifies_origin_sample :
  ∃ e, corsOptions_origin (Some "https://evil.example") = Deny e
       ∧ origin_check [] (Some "https://evil.example") = Deny e
       ∧ Some "https://evil.example" = Some "https://evil.example".
Proof.
  eexists. split; [by vm_compute |]. split; [by vm_compute |].
  eapply (denial_identifies_origin allowList []); by vm_compute.
Defined.

(** ** More on the error boundary *)

Lemma boundary_outcome_cons (s : StageId) (tr : list StageId) (fin : Final * World) :
  s ≠ OnError →
  boundary_not_reached (tr, fin) ∨ answered_by_boundary (tr, fin) →
  boundary_not_reached (s :: tr, fin) ∨ answered_by_boundary (s :: tr, fin).
Proof.
  intros Hs [[Hnot Hfin] | (pre & e & req' & res0 & Htr & Hpre & Hfin)]; simpl in *.
  - left. split; [| done]. simpl. rewrite not_elem_of_cons. done.
  - right. exists (s :: pre), e, req', res0. simpl. rewrite Htr.
    split; [done |]. split; [| done]. rewrite not_elem_of_cons. done.
Qed.

(** A stack whose only [onError] layer is its last one: whatever the other
    layers do, the walk ends in one of the two ways above. *)
Lemma dispatch_boundary_outcome (front : list Layer) (err : option JsError)
    (req : Request) (res : Response) (w : World) :
  OnError ∉ stage <$> front →
  let r := dispatch (front ++ [error_boundary]) err req res w in
  boundary_not_reached r ∨ answered_by_boundary r.
Proof.
  revert err req res w. induction front as [|l front IH]; intros err req res w Hfront.
  - destruct err as [e|]; simpl.
    + right. exists [], e, req, res. split; [done |]. split; [| done].
      apply not_elem_of_nil.
    + left. split; [apply not_elem_of_nil |]. right. by exists req, res.
  - rewrite fmap_cons, not_elem_of_cons in Hfront. destruct Hfront as [Hl Hfront].
    assert (∀ r : Result Outcome,
      let out :=
        match r with
        | Ok (Next req' res') w' =>
            let '(tr, fin) := dispatch (front ++ [error_boundary]) None req' res' w' in
            (stage l :: tr, fin)
        | Ok (NextErr e req' res') w' =>
            let '(tr, fin) := dispatch (front ++ [error_boundary]) (Some e) req' res' w' in
            (stage l :: tr, fin)
        | Ok (End req' res') w' => ([stage l], (Responded req' res', w'))
        | Throw e w' =>
            let '(tr, fin) := dispatch (front ++ [error_boundary]) (Some e) req res w' in
            (stage l :: tr, fin)
        end in
      boundary_not_reached out ∨ answered_by_boundary out) as Hstep.
    { intros [[req' res'|e req' res'|req' res'] w'|e w']; cbv zeta.
      - specialize (IH None req' res' w' Hfront). cbv zeta in IH.
        destruct (dispatch _ _ _ _ _) as [tr fin]. by apply boundary_outcome_cons.
      - specialize (IH (Some e) req' res' w' Hfront). cbv zeta in IH.
        destruct (dispatch _ _ _ _ _) as [tr fin]. by apply boundary_outcome_cons.
      - left. split; simpl.
        + rewrite not_elem_of_cons. split; [done | apply not_elem_of_nil].
        + left. by exists req', res'.
      - specialize (IH (Some e) req res w' Hfront). cbv zeta in IH.
        destruct (dispatch _ _ _ _ _) as [tr fin]. by apply boundary_outcome_cons. }
    cbv zeta in *. simpl. destruct (layer_applies l req); [| by apply IH].
    destruct (handler l) as [f|f], err as [e|];
      first [apply Hstep | by apply IH].
Qed.

Section Boundary.
Context `{Collaborators}.

Lemma createApp_boundary_last (h : option EventHandler) :
  stack (createApp h)
  = (sentry_entry ++ context_stages h ++ service_stages ++ sentry_exit) ++ [error_boundary]
  ∧ OnError ∉ stage <$> (sentry_entry ++ context_stages h ++ service_stages ++ sentry_exit).
Proof.
  split.
  - rewrite createApp_stack. by rewrite <- !app_assoc.
  - unfold sentry_entry, sentry_exit. destruct Sentry; simpl;
      set_unfold; intros ?; destruct_or!; simplify_eq.
Qed.


(** X7.  In the application [createApp] builds, no error is left over: a
    request never comes out of the stack with an error still pending, so
    Express's own error page is never used.  When the stack does run out, no
    error is pending and [onError] has not run. *)
Theorem no_error_escapes_the_boundary (h : option EventHandler) (req : Request)
    (res : Response) (w : World) :
  (∀ e req' res',
     (handle_request (createApp h) req res w).2.1 ≠ FellThrough (Some e) req' res')
  ∧ (∀ err req' res',
       (handle_request (createApp h) req res w).2.1 = FellThrough err req' res' →
       err = None ∧ OnError ∉ (handle_request (createApp h) req res w).1).
Proof.
  unfold handle_request.
  destruct (createApp_boundary_last h) as [Hstack Hfront].
  rewrite Hstack.
  pose proof (dispatch_boundary_outcome _ None req res w Hfront) as Hout.
  cbv zeta in Hout.
  destruct (dispatch _ None req res w) as [tr [fin w']].
  unfold boundary_not_reached, answered_by_boundary in Hout. simpl in *.
  destruct Hout as [[Hnot [(r1 & r2 & ->) | (r1 & r2 & ->)]]
                   | (pre & e0 & r1 & r2 & _ & _ & ->)]; simpl in *.
  - split; [done |]. intros err req' res' [=].
  - split; [done |]. intros err req' res' [= <- _ _]. done.
  - split; [done |]. intros err req' res' [=].
Qed.

Lemma dispatch_cors_denied (rest : list Layer) (err : JsError)
    (req : Request) (res : Response) (w : World) :
  corsOptions_origin (headers_origin req) = Deny err →
  dispatch (service_stages ++ rest) None req res w
  = let '(tr, fin) := dispatch rest (Some err) req res w in (Cors :: tr, fin).
Proof.
  intros Hd.
  change (service_stages ++ rest)
    with (Build_Layer Cors None (Handle (cors corsOptions_origin))
            :: (tail service_stages ++ rest)).
  cbn [dispatch layer_applies only_method handler stage]. unfold cors at 1.
  rewrite Hd. unfold ret.
  rewrite dispatch_error_skips; [done |].
  unfold service_stages. simpl. repeat constructor; by eexists.
Qed.

(** X8.  A request whose origin the gate denies gets no service: after the
    three context stages and the CORS layer, neither the pre-flight responder
    nor body parsing, file upload, the sitemap or the routes run; only Sentry's
    error handler and [onError] can.  Without Sentry the answer is fixed: status
    500 with the denial message, one [UserContext] allocated, nothing
    logged. *)
Theorem denied_origin_gets_no_service (h : option EventHandler) (req : Request)
    (res : Response) (w : World) (err : JsError) :
  corsOptions_origin (headers_origin req) = Deny err →
  (∃ tr fin,
     dispatch (context_stages h ++ service_stages ++ sentry_exit ++ [error_boundary])
              None req res w
     = ([AddUserContext; AttachEventHandler; AttachLogger; Cors] ++ tr, fin)
     ∧ tr `sublist_of` [SentryErrorHandler; OnError])
  ∧ (Sentry = None →
     ∃ req',
       handle_request (createApp h) req res w
       = ([AddUserContext; AttachEventHandler; AttachLogger; Cors; OnError],
          (Responded req'
             {| statusCode := 500; sentry := sentry res;
                body := Some (VObject [("errorId", of_optional_string (sentry res));
                                       ("message", VString (message err))]) |},
           set_heap (<[fresh_loc w := UserContextInstance]> (heap w)) w))
       ∧ ctx req' = Some (fresh_loc w)).
Proof.
  intros Hd. split.
  - rewrite dispatch_context_stages. cbv zeta.
    rewrite (dispatch_cors_denied _ err) by done.
    pose proof (dispatch_trace_sublist (sentry_exit ++ [error_boundary]) (Some err)
      (set_logError {| captured_context := request_metadata req |}
         (set_log {| captured_context := request_metadata req |}
            (set_notify {| captured_eventHandler := h |} (set_ctx (fresh_loc w) req))))
      res (set_heap (<[fresh_loc w := UserContextInstance]> (heap w)) w)) as Hsub.
    destruct (dispatch (sentry_exit ++ _) _ _ _ _) as [tr fin].
    exists tr, fin. split; [done |]. simpl in Hsub.
    unfold sentry_exit in Hsub. destruct Sentry; simpl in Hsub; [done |].
    by apply sublist_cons.
  - intros HS. unfold handle_request. rewrite createApp_stack.
    unfold sentry_entry, sentry_exit. rewrite HS. cbn [app].
    rewrite dispatch_context_stages. cbv zeta.
    rewrite (dispatch_cors_denied _ err) by done.
    eexists. split; [reflexivity | done].
Qed.

(** X9.  The shape of every application [createApp] builds: its one setting
    is ["json spaces" = 2]; no stage is installed twice; the pre-flight
    responder is the only layer bound to a verb, and the verb is [OPTIONS]; the
    error handlers are Sentry's and [onError] and nothing else; and the
    subscriber changes nothing but the notifier stage. *)
Theorem createApp_shape (h h' : option EventHandler) :
  settings (createApp h) = [("json spaces", VNumber 2)]
  ∧ NoDup (stage <$> stack (createApp h))
  ∧ (∀ l m, l ∈ stack (createApp h) → only_method l = Some m →
            stage l = CorsPreflight ∧ m = "OPTIONS")
  ∧ (∀ l, l ∈ stack (createApp h) →
          (∃ f, handler l = HandleError f) ↔ stage l ∈ [SentryErrorHandler; OnError])
  ∧ settings (createApp h') = settings (createApp h)
  ∧ filter (λ l, stage l ≠ AttachEventHandler) (stack (createApp h'))
    = filter (λ l, stage l ≠ AttachEventHandler) (stack (createApp h)).
Proof.
  split; [| split; [| split; [| split; [| split]]]].
  - unfold createApp. by destruct Sentry.
  - unfold createApp. destruct Sentry; simpl;
      repeat (apply NoDup_cons; split; [set_unfold; intros ?; destruct_or!; simplify_eq |]);
      apply NoDup_nil_2.
  - intros l m Hl Hm. rewrite createApp_stack in Hl.
    unfold sentry_entry, sentry_exit in Hl.
    destruct Sentry; simpl in Hl; set_unfold; destruct_or!; subst; simpl in *;
      simplify_eq; done.
  - intros l Hl. rewrite createApp_stack in Hl.
    unfold sentry_entry, sentry_exit in Hl.
    destruct Sentry; simpl in Hl; set_unfold; destruct_or!; subst; simpl;
      (split; [intros [f Hf]; simplify_eq; auto | intros ?; destruct_or!; simplify_eq;
               by eexists]).
  - unfold createApp. by destruct Sentry.
  - unfold createApp. by destruct Sentry.
Qed.

End Boundary.


(** X8 on the sample deployment and the origin ["https://evil.example"]. *)
Lemma denied_origin_gets_no_service_sample :
  ∃ req',
    handle_request
      (@createApp (Sample.collaborators None Sample.skin_route (ret [])) None)
      (Sample.request (Some "https://evil.example")) Sample.response Sample.world
    = ([AddUserContext; AttachEventHandler; AttachLogger; Cors; OnError],
       (Responded req'
          {| statusCode := 500; sentry := None;
             body := Some (VObject
               [("errorId", VUndefined);
                ("message", VString ("Request from origin " +:+ dquote
                   +:+ "https://evil.example" +:+ dquote +:+ " not allowed by CORS."))]) |},
        set_heap (<[2 := UserContextInstance]> (heap Sample.world)) Sample.world))
    ∧ ctx req' = Some 2.
Proof.
  destruct (@denied_origin_gets_no_service
              (Sample.collaborators None Sample.skin_route (ret [])) None
              (Sample.request (Some "https://evil.example")) Sample.response Sample.world
              (Error ("Request from origin " +:+ dquote +:+ "https://evil.example"
                        +:+ dquote +:+ " not allowed by CORS.")))
    as [_ Hexact]; [by vm_compute |].
  destruct (Hexact eq_refl) as (req' & Hrun & Hctx).
  exists req'. split; [exact Hrun | exact Hctx].
Defined.

(** ** More on the request context *)

(** X10.  Any number of requests served in turn receive pairwise different
    contexts.  Each context is a new [UserContext] at a location that was free
    before the first request; the provider leaves every object that existed
    untouched, and writes nothing to the console. *)
Theorem contexts_are_pairwise_distinct (reqs : list Request) (res : Response) (w : World) :
  ∃ outs w',
    provide_contexts reqs res w = Ok outs w'
    ∧ length outs = length reqs
    ∧ NoDup (ctx <$> outs)
    ∧ (∀ out, out ∈ outs →
         ∃ c, ctx out = Some c ∧ (c ∉ dom (heap w))
              ∧ heap w' !! c = Some UserContextInstance)
    ∧ heap w ⊆ heap w'
    ∧ console w' = console w.
Proof.
  revert w. induction reqs as [|req reqs IH]; intros w.
  - exists [], w. split; [done |]. split; [done |]. split; [apply NoDup_nil_2 |].
    split; [intros out Hout; by apply elem_of_nil in Hout | done].
  - pose proof (new_UserContext_fresh w) as [_ Hfresh].
    set (c := fresh_loc w) in *.
    set (w1 := set_heap (<[c := UserContextInstance]> (heap w)) w).
    destruct (IH w1) as (outs & w' & Hrun & Hlen & Hnd & Hall & Hsub & Hcon).
    assert (heap w !! c = None) as Hnone by (by apply not_elem_of_dom).
    assert (heap w ⊆ heap w1) as Hsub1 by (by apply insert_subseteq).
    exists (set_ctx c req :: outs), w'.
    split.
    { simpl. unfold bind, addUserContext, bind, new_UserContext, new_object, ret.
      fold c. fold w1. by rewrite Hrun. }
    split; [simpl; by rewrite Hlen |].
    split.
    { rewrite fmap_cons. apply NoDup_cons. split; [| done].
      simpl. intros (out & Hc & Hout)%list_elem_of_fmap.
      destruct (Hall out Hout) as (c' & Hc' & Hfree & _).
      rewrite Hc' in Hc. injection Hc as ->.
      apply Hfree. simpl. rewrite dom_insert. set_solver. }
    split.
    { intros out [-> | Hout]%elem_of_cons.
      - exists c. split; [done |]. split; [done |].
        eapply lookup_weaken; [| exact Hsub]. simpl. apply lookup_insert_eq.
      - destruct (Hall out Hout) as (c' & Hc' & Hfree & Hlive).
        exists c'. split; [done |]. split; [| done].
        intros Hin. apply Hfree. simpl. rewrite dom_insert. set_solver. }
    split; [by etrans | done].
Qed.

(** ** More on the notifier and the logger *)

Lemma for_each_console {A} (xs : list A) (f : A → M unit) (line : A → ConsoleLine)
    (w : World) :
  (∀ x w0, f x w0 = Ok () (set_console (console w0 ++ [line x]) w0)) →
  for_each xs f w = Ok () (set_console (console w ++ (line <$> xs)) w).
Proof.
  intros Hf. revert w. induction xs as [|x xs IH]; intros w; simpl.
  - unfold ret. rewrite app_nil_r. by destruct w.
  - unfold bind. rewrite Hf, IH. simpl. by rewrite <- app_assoc.
Qed.

(** X11.  Events reach the subscriber in the order [notify] was called, one
    call of the subscriber per call of [notify], each with the request's
    context; and the subscriber's failure is the caller's: when it throws on an
    event, [notify] throws the same error and the events after it are not
    delivered. *)
Theorem notifications_arrive_in_call_order (h : EventHandler) (req : Request)
    (actions : list ApiAction) (w : World) :
  notify req = Some {| captured_eventHandler := Some h |} →
  for_each actions (req_notify req) w = for_each actions (λ a, h a (ctx req)) w
  ∧ (h = Sample.console_subscriber →
     for_each actions (req_notify req) w
     = Ok () (set_console
                (console w ++ ((λ a, {| level := LevelInfo;
                                        args := [Sample.action_value a;
                                                 of_optional_ref (ctx req)] |})
                               <$> actions)) w))
  ∧ (∀ a rest e w1,
       h a (ctx req) w = Throw e w1 →
       req_notify req a w = Throw e w1
       ∧ for_each (a :: rest) (req_notify req) w = Throw e w1).
Proof.
  intros Hn.
  assert (∀ a w0, req_notify req a w0 = h a (ctx req) w0) as Hcall.
  { intros a w0. unfold req_notify. by rewrite Hn. }
  split; [| split].
  - revert w. induction actions as [|a actions IH]; intros w; simpl; [done |].
    unfold bind. rewrite Hcall. destruct (h a (ctx req) w); [apply IH | done].
  - intros ->. apply for_each_console. intros a w0. by rewrite Hcall.
  - intros a rest e w1 Hthrow. split; [by rewrite Hcall |].
    simpl. unfold bind. by rewrite Hcall, Hthrow.
Qed.

(** X11 on two events notified in turn on the sample request. *)
Lemma notifications_arrive_in_call_order_sample :
  for_each [SKIN_UPLOADED "abc"; REVIEW_REQUESTED "abc"]
    (req_notify (set_notify {| captured_eventHandler := Some Sample.console_subscriber |}
                   (set_ctx 2 (Sample.request None))))
    Sample.world
  = Ok () (set_console
             [{| level := LevelInfo;
                 args := [VObject [("type", VString "SKIN_UPLOADED");
                                   ("md5", VString "abc")]; VRef 2] |};
              {| level := LevelInfo;
                 args := [VObject [("type", VString "REVIEW_REQUESTED");
                                   ("md5", VString "abc")]; VRef 2] |}]
             Sample.world).
Proof.
  destruct (notifications_arrive_in_call_order Sample.console_subscriber
              (set_notify {| captured_eventHandler := Some Sample.console_subscriber |}
                 (set_ctx 2 (Sample.request None)))
              [SKIN_UPLOADED "abc"; REVIEW_REQUESTED "abc"] Sample.world eq_refl)
    as (_ & Hlines & _).
  by rewrite (Hlines eq_refl).
Defined.

(** X12.  After the logger stage, any sequence of [log] and [logError]
    calls adds one console line per call, in call order, each at the level of
    its call and all with the metadata of the stage; no call throws, and the
    heap is left alone. *)
Theorem log_calls_append_in_order (req : Request) (res : Response) (w : World) :
  ∃ req',
    attachLogger req res w = Ok (Next req' res) w
    ∧ ∀ (calls : list (Level * string)) (w' : World),
        ∃ w'',
          for_each calls (req_emit req') w' = Ok () w''
          ∧ console w''
            = console w' ++ ((λ call, {| level := call.1;
                                         args := [VString call.2;
                                                  LogContext_value (request_metadata req)] |})
                             <$> calls)
          ∧ length (console w'') = length (console w') + length calls
          ∧ heap w'' = heap w'.
Proof.
  eexists. split; [reflexivity |].
  intros calls w'. eexists. split.
  - apply (for_each_console calls _
             (λ call, {| level := call.1;
                         args := [VString call.2;
                                  LogContext_value (request_metadata req)] |})).
    by intros [[] m] w0.
  - split; [done |]. split; [| done]. simpl. by rewrite length_app, length_fmap.
Qed.

(** ** More on the sitemap *)

(** With no [/] in either identifier, the text after ["skin/"] determines
    both the identifier and the file name. *)
Lemma sitemap_entry_inj (m1 f1 m2 f2 : string) :
  slash_free m1 = true → slash_free m2 = true →
  m1 +:+ "/" +:+ f1 = m2 +:+ "/" +:+ f2 → m1 = m2 ∧ f1 = f2.
Proof.
  revert m2. induction m1 as [|c m1 IH]; intros [|d m2] H1 H2 Heq; simpl in *.
  - by injection Heq.
  - injection Heq as <- _. apply andb_true_iff in H2 as [H2 _].
    by rewrite bool_decide_eq_true_2 in H2.
  - injection Heq as -> _. apply andb_true_iff in H1 as [H1 _].
    by rewrite bool_decide_eq_true_2 in H1.
  - injection Heq as -> Heq.
    apply andb_true_iff in H1 as [_ H1]. apply andb_true_iff in H2 as [_ H2].
    destruct (IH m2 H1 H2 Heq) as [-> ->]. done.
Qed.

(** X13.  When the data layer returns different skins whose identifiers
    contain no [/], the sitemap lists no URL twice: different skins get
    different entries, and no entry coincides with one of the three fixed
    paths. *)
Theorem sitemap_has_no_duplicates `{Collaborators} (w w' : World) (items : list Skin) :
  Skins_getAllClassicSkins w = Ok items w' →
  NoDup items →
  (∀ s, s ∈ items → slash_free (md5 s) = true) →
  ∃ urls, getSitemapUrls w = Ok urls w' ∧ NoDup urls.
Proof.
  intros Hfetch Hnd Hfree. unfold getSitemapUrls, bind. rewrite Hfetch.
  eexists. split; [reflexivity |].
  apply NoDup_app. split; [| split].
  - repeat (apply NoDup_cons; split; [set_unfold; intros ?; destruct_or!; simplify_eq |]).
    apply NoDup_nil_2.
  - intros u Hu (s & -> & _)%list_elem_of_fmap.
    set_unfold. destruct_or!; discriminate.
  - apply NoDup_fmap_2_strong; [| done].
    intros [m1 f1] [m2 f2] H1 H2 Heq. simpl in Heq. injection Heq as Heq.
    destruct (sitemap_entry_inj m1 f1 m2 f2) as [-> ->]; [| | done | done].
    + by apply (Hfree _ H1).
    + by apply (Hfree _ H2).
Qed.

(** X13 on two skins that share a file name. *)
Lemma sitemap_has_no_duplicates_sample :
  ∃ urls,
    @getSitemapUrls
      (Sample.collaborators None Sample.pass
         (ret [{| md5 := "abc"; fileName := "foo.wal" |};
               {| md5 := "abd"; fileName := "foo.wal" |}])) Sample.world
    = Ok urls Sample.world
    ∧ NoDup urls.
Proof.
  apply (@sitemap_has_no_duplicates
           (Sample.collaborators None Sample.pass
              (ret [{| md5 := "abc"; fileName := "foo.wal" |};
                    {| md5 := "abd"; fileName := "foo.wal" |}]))
           Sample.world Sample.world
           [{| md5 := "abc"; fileName := "foo.wal" |};
            {| md5 := "abd"; fileName := "foo.wal" |}]).
  - reflexivity.
  - repeat (apply NoDup_cons; split; [set_unfold; intros ?; destruct_or!; simplify_eq |]).
    apply NoDup_nil_2.
  - intros s Hs. set_unfold. destruct_or!; by subst.
Defined.

(** ** The three context stages do not depend on each other *)

(** X14.  The provider, the notifier stage and the logger stage write
    different fields of the request, and [notify] reads [req.ctx] only when it
    is called: installed in any of the other five orders, the three stages hand
    the same request, the same response and the same store to the layers
    downstream, and the request ends the same way. *)
Theorem context_stages_are_independent (h : option EventHandler)
    (downstream : list Layer) (req : Request) (res : Response) (w : World) :
  Forall
    (λ order,
       (dispatch (order ++ downstream) None req res w).2
       = (dispatch (context_stages h ++ downstream) None req res w).2)
    (let provider := Build_Layer AddUserContext None (Handle addUserContext) in
     let notifier :=
       Build_Layer AttachEventHandler None (Handle (attachEventHandler h)) in
     let logger := Build_Layer AttachLogger None (Handle attachLogger) in
     [ [provider; logger; notifier];
       [notifier; provider; logger];
       [notifier; logger; provider];
       [logger; provider; notifier];
       [logger; notifier; provider] ]).
Proof.
  cbv zeta. repeat constructor; simpl;
    by destruct (dispatch downstream _ _ _ _) as [tr fin].
Qed.
